(** * The registration endpoint of the blog backend (src/App.js)

    The walkthrough in [src/App.js] contains two pieces of code with a
    contract: the [users] table of the schema (lines 13-18) and the Express
    handler of [POST /api/register] (lines 59-69).  This development embeds
    both.

    - The handler awaits two collaborators, [bcrypt.hash] and the Supabase
      client, and then answers on [res].  It is written below as a program
      over these three operations ([Prog]); [run] executes a program against
      an environment that says what the collaborators do, threading the state
      of the outside world and recording the calls that were made.  An
      [await] on a rejected promise throws, and the handler has no
      [try]/[catch], so a rejection ends the run as [Uncaught].
    - The [users] table is a list of rows; [insert_users] is one [INSERT]
      statement under the constraints the schema declares.

    The rest of the walkthrough is embedded as well: the [posts] table with
    its reference to [users] (lines 21-27), the choice of the listening port
    (line 71), and the React form with its [handleRegister] (lines 97-124),
    whose request is also given to the handler. *)

From Stdlib Require Import ZArith Floats Ascii String.
From stdpp Require Import base strings list gmap.

Set Warnings "-register-all".

Local Open Scope Z_scope.
Local Open Scope string_scope.
Local Open Scope list_scope.

(** ** JavaScript values *)

(** What [JSON.parse] can put into [req.body], what [res.json] can send, and
    [undefined], which is what reading an absent property gives. *)
Inductive JSValue : Type :=
| JUndefined
| JNull
| JBool (b : bool)
| JNum (x : float)
| JStr (s : string)
| JArr (items : list JSValue)
| JObj (fields : list (string * JSValue)).

(** The [typeof] operator. *)
Definition js_typeof (v : JSValue) : string :=
  match v with
  | JUndefined => "undefined"
  | JBool _ => "boolean"
  | JNum _ => "number"
  | JStr _ => "string"
  | JNull | JArr _ | JObj _ => "object"
  end.

(** [o.k] on an object used as a map: [undefined] when the key is absent. *)
Definition prop (o : gmap string JSValue) (k : string) : JSValue :=
  default JUndefined (o !! k).

(** A thrown [Error]. *)
Record JsError : Type := { err_message : string }.

(** What awaiting a promise gives: its value, or the rejection is thrown. *)
Inductive Settled (A : Type) : Type :=
| Resolved (a : A)
| Rejected (e : JsError).
Arguments Resolved {A} a.
Arguments Rejected {A} e.

(** ** The Supabase client, as the handler sees it *)

(** The object literal [{ username, email, password: hashedPassword }]. *)
Module Insert.
Record row : Type := { username : JSValue; email : JSValue; password : JSValue }.
End Insert.

Record PostgrestError : Type :=
  { message : string; details : string; hint : string; code : string }.

(** The handler destructures [{ data, error }]; [error] is [null] or an
    error object, so [if (error)] is a test for [Some]. *)
Record PostgrestResponse : Type :=
  { data : JSValue; error : option PostgrestError }.

(** The Express request: the handler reads nothing but [req.body], which
    [bodyParser.json()] has set to an object. *)
Record Request : Type := { body : gmap string JSValue }.

(** ** Handler programs *)

Inductive Prog (A : Type) : Type :=
| Ret (a : A)
| AwaitBcryptHash (s : JSValue) (rounds : Z) (k : string -> Prog A)
| AwaitInsert (table : string) (rows : list Insert.row) (k : PostgrestResponse -> Prog A)
| ResStatusJson (status : Z) (payload : JSValue) (k : Prog A).
Arguments Ret {A} a.
Arguments AwaitBcryptHash {A} s rounds k.
Arguments AwaitInsert {A} table rows k.
Arguments ResStatusJson {A} status payload k.

Notation "'const' x ':=' 'await' c ; k" := (c (fun x => k))
  (at level 10, x name, c at level 100, k at level 200, only parsing).

(** [app.post('/api/register', async (req, res) => { ... })], lines 59-69. *)
Definition register (req : Request) : Prog unit :=
  let username := prop (body req) "username" in
  let email := prop (body req) "email" in
  let password := prop (body req) "password" in
  const hashedPassword := await AwaitBcryptHash password 10;
  const r := await AwaitInsert "users"
    [ {| Insert.username := username;
         Insert.email := email;
         Insert.password := JStr hashedPassword |} ];
  match error r with
  | Some e => ResStatusJson 400 (JObj [("error", JStr (message e))]) (Ret tt)
  | None => ResStatusJson 201 (data r) (Ret tt)
  end.

(** The row the handler submits for a request once the hash is [h]: the
    object literal of line 65, named for use in statements. *)
Definition new_user (req : Request) (h : string) : Insert.row :=
  {| Insert.username := prop (body req) "username";
     Insert.email := prop (body req) "email";
     Insert.password := JStr h |}.

(** ** Running a handler *)

(** The collaborators, over a state [W] of the outside world (the database,
    the random generator, the network). *)
Record Env (W : Type) : Type :=
  { bcrypt_hash : JSValue -> Z -> W -> Settled string * W;
    supabase_insert : string -> list Insert.row -> W -> Settled PostgrestResponse * W }.
Arguments bcrypt_hash {W} _ _ _ _.
Arguments supabase_insert {W} _ _ _ _.

Inductive Event : Type :=
| EvHash (s : JSValue) (rounds : Z)
| EvInsert (table : string) (rows : list Insert.row)
| EvSend (status : Z) (payload : JSValue).

Inductive Outcome (A : Type) : Type :=
| Completed (a : A)
| Uncaught (e : JsError).
Arguments Completed {A} a.
Arguments Uncaught {A} e.

Record Run (W A : Type) : Type :=
  { outcome : Outcome A; trace : list Event; world : W }.
Arguments outcome {W A} _.
Arguments trace {W A} _.
Arguments world {W A} _.

Definition logged {W A} (ev : Event) (r : Run W A) : Run W A :=
  {| outcome := outcome r; trace := ev :: trace r; world := world r |}.

Fixpoint run {W A} (env : Env W) (p : Prog A) (w : W) : Run W A :=
  match p with
  | Ret a => {| outcome := Completed a; trace := []; world := w |}
  | AwaitBcryptHash s rounds k =>
      match bcrypt_hash env s rounds w with
      | (Resolved h, w') => logged (EvHash s rounds) (run env (k h) w')
      | (Rejected e, w') =>
          {| outcome := Uncaught e; trace := [EvHash s rounds]; world := w' |}
      end
  | AwaitInsert table rows k =>
      match supabase_insert env table rows w with
      | (Resolved r, w') => logged (EvInsert table rows) (run env (k r) w')
      | (Rejected e, w') =>
          {| outcome := Uncaught e; trace := [EvInsert table rows]; world := w' |}
      end
  | ResStatusJson status payload k => logged (EvSend status payload) (run env k w)
  end.

(** The HTTP responses of a run, and the inserts it submitted. *)
Definition responses (t : list Event) : list (Z * JSValue) :=
  omap (fun ev => match ev with EvSend st b => Some (st, b) | _ => None end) t.

Definition inserts (t : list Event) : list (string * list Insert.row) :=
  omap (fun ev => match ev with EvInsert tb rs => Some (tb, rs) | _ => None end) t.

(** The calls made on the collaborators, in order. *)
Definition calls (t : list Event) : list Event :=
  omap (fun ev => match ev with EvSend _ _ => None | _ => Some ev end) t.

(** ** The [users] table (schema, lines 13-18)

    [id UUID PRIMARY KEY DEFAULT gen_random_uuid()], [username TEXT UNIQUE NOT
    NULL], [email TEXT UNIQUE NOT NULL], [password TEXT NOT NULL]. *)
Module Users.
Record row : Type :=
  { id : string; username : string; email : string; password : string }.

Definition ids (tbl : list row) : list string := id <$> tbl.
Definition usernames (tbl : list row) : list string := username <$> tbl.
Definition emails (tbl : list row) : list string := email <$> tbl.
End Users.

(** The constraint an [INSERT] can violate. *)
Inductive Violation : Type :=
| NotNull (column : string)
| Unique (constraint : string).

Definition quoted (s : string) : string :=
  String "034"%char (s +:+ String "034"%char "").

(** PostgreSQL's wording and SQLSTATE for the two kinds of violation. *)
Definition violation_error (v : Violation) : PostgrestError :=
  match v with
  | NotNull column =>
      {| message := "null value in column " +:+ quoted column
                    +:+ " of relation " +:+ quoted "users"
                    +:+ " violates not-null constraint";
         details := ""; hint := ""; code := "23502" |}
  | Unique constraint =>
      {| message := "duplicate key value violates unique constraint "
                    +:+ quoted constraint;
         details := ""; hint := ""; code := "23505" |}
  end.

(** What differs from one request to the next and is not the table: whether
    the request reaches the database ([unreachable] carries the client's
    failure message when it does not), and the values [gen_random_uuid()]
    draws, one per row of the statement. *)
Record Conditions : Type :=
  { unreachable : option string;
    gen_random_uuid : nat -> string }.

Definition row_json (r : Users.row) : JSValue :=
  JObj [("id", JStr (Users.id r));
        ("username", JStr (Users.username r));
        ("email", JStr (Users.email r));
        ("password", JStr (Users.password r))].

Section Store.
(** The text a [TEXT] column receives for a JSON value that is neither a
    string nor null (a number, a boolean, an array, an object).  The
    service's rendering is not part of the repository. *)
Variable json_text : JSValue -> string.

(** The value of a [TEXT] column for a field of the payload; [None] is SQL
    [NULL]: a field that is [undefined] is left out of the JSON that is
    sent, and the column has no default.  The service also refuses, while it
    reads the payload, a text the database cannot hold (one with a NUL
    character); that refusal is not modelled. *)
Definition sql_text (v : JSValue) : option string :=
  match v with
  | JUndefined | JNull => None
  | JStr s => Some s
  | _ => Some (json_text v)
  end.

(** One row of the statement against the table so far: defaults, then the
    [NOT NULL] columns, then the three unique indexes. *)
Definition check_row (tbl : list Users.row) (uuid : string) (r : Insert.row)
  : Violation + Users.row :=
  match sql_text (Insert.username r) with
  | None => inl (NotNull "username")
  | Some u =>
    match sql_text (Insert.email r) with
    | None => inl (NotNull "email")
    | Some e =>
      match sql_text (Insert.password r) with
      | None => inl (NotNull "password")
      | Some p =>
        if bool_decide (uuid ∈ Users.ids tbl) then inl (Unique "users_pkey")
        else if bool_decide (u ∈ Users.usernames tbl) then inl (Unique "users_username_key")
        else if bool_decide (e ∈ Users.emails tbl) then inl (Unique "users_email_key")
        else inr {| Users.id := uuid; Users.username := u;
                    Users.email := e; Users.password := p |}
      end
    end
  end.

(** The rows of one statement, in order; the [k]-th row takes the [k]-th
    draw.  The first violation aborts the statement. *)
Fixpoint insert_rows (uuid : nat -> string) (k : nat) (rows : list Insert.row)
    (tbl : list Users.row) : Violation + list Users.row :=
  match rows with
  | [] => inr tbl
  | r :: rest =>
      match check_row tbl (uuid k) r with
      | inl v => inl v
      | inr new => insert_rows uuid (S k) rest (tbl ++ [new])
      end
  end.

(** [supabase.from('users').insert(rows)]: one statement, applied as a
    whole or not at all; on success [data] is the representation of the
    rows that were inserted, which is what supabase-js 1.x answers (2.x
    answers [null] there unless [.select()] is chained). *)
Definition insert_users (c : Conditions) (rows : list Insert.row)
    (tbl : list Users.row) : PostgrestResponse * list Users.row :=
  match unreachable c with
  | Some msg =>
      ({| data := JNull;
          error := Some {| message := msg; details := ""; hint := ""; code := "" |} |},
       tbl)
  | None =>
      match insert_rows (gen_random_uuid c) 0 rows tbl with
      | inl v => ({| data := JNull; error := Some (violation_error v) |}, tbl)
      | inr tbl' =>
          ({| data := JArr (row_json <$> drop (length tbl) tbl'); error := None |},
           tbl')
      end
  end.

(** The service's answer to an insert into a table other than [users]
    (the handler makes none); the [users] table is not touched by it. *)
Variable other_table : string -> list Insert.row -> PostgrestResponse.

(** The environment of one request: [hash] is what [bcrypt.hash] settles
    to, the world is the [users] table. *)
Definition supabase (hash : JSValue -> Z -> Settled string) (c : Conditions)
  : Env (list Users.row) :=
  {| bcrypt_hash := fun s rounds tbl => (hash s rounds, tbl);
     supabase_insert := fun table rows tbl =>
       if String.eqb table "users"
       then let '(r, tbl') := insert_users c rows tbl in (Resolved r, tbl')
       else (Resolved (other_table table rows), tbl) |}.
End Store.

(** The states of the table: empty after [CREATE TABLE], then changed by
    insert statements only (any payload, any caller). *)
Inductive reachable (json_text : JSValue -> string) : list Users.row -> Prop :=
| reachable_created : reachable json_text []
| reachable_insert c rows tbl :
    reachable json_text tbl ->
    reachable json_text (snd (insert_users json_text c rows tbl)).

(** No two rows share a username, and no two rows share an email. *)
Definition users_unique (tbl : list Users.row) : Prop :=
  NoDup (Users.usernames tbl) ∧ NoDup (Users.emails tbl).

(** ** [bcrypt.hash]

    The library is a dependency, not code of the repository.  One fact of it
    matters to the handler's control flow: [bcryptjs] rejects with
    [Illegal arguments: <typeof s>, <typeof salt>] unless its first argument
    is a string.  The digest itself is the parameter [crypt]. *)
Definition bcryptjs_hash (crypt : string -> Z -> string) (s : JSValue) (rounds : Z)
  : Settled string :=
  match s with
  | JStr p => Resolved (crypt p rounds)
  | _ => Rejected {| err_message := "Illegal arguments: " +:+ js_typeof s +:+ ", number" |}
  end.

(** ** Fixtures for the examples *)

Definition sample_digest : string -> Z -> string :=
  fun _ _ => "$2a$10$N9qo8uLOickgx2ZMRZoMyeIjZAgcfl7p92ldGxad68LJZdL17lhWy".

Definition sample_conditions : Conditions :=
  {| unreachable := None;
     gen_random_uuid := fun k =>
       "3f2b8c1e-5d4a-4e6f-9a7b-00000000000" +:+ String (Ascii.ascii_of_nat (48 + k)) "" |}.

Definition offline : Conditions :=
  {| unreachable := Some "FetchError: request to the database failed";
     gen_random_uuid := gen_random_uuid sample_conditions |}.

Definition no_json_text : JSValue -> string := fun _ => "".

Definition no_other_table : string -> list Insert.row -> PostgrestResponse :=
  fun _ _ => {| data := JNull; error := None |}.

Definition sample_env (c : Conditions) : Env (list Users.row) :=
  supabase no_json_text no_other_table (bcryptjs_hash sample_digest) c.

Definition alice : Request :=
  {| body := {[ "username" := JStr "alice";
                "email" := JStr "alice@example.com";
                "password" := JStr "s3cret" ]} |}.

Definition alice_row : Users.row :=
  {| Users.id := "3f2b8c1e-5d4a-4e6f-9a7b-000000000000";
     Users.username := "alice";
     Users.email := "alice@example.com";
     Users.password := sample_digest "s3cret" 10 |}.

Definition alice_as_admin : Request :=
  {| body := <[ "role" := JStr "admin" ]> (<[ "id" := JStr "0" ]> (body alice)) |}.

Definition no_password : Request :=
  {| body := {[ "username" := JStr "bob"; "email" := JStr "bob@example.com" ]} |}.

Definition blank_password : Request :=
  {| body := {[ "username" := JStr "carol";
                "email" := JStr "carol@example.com";
                "password" := JStr "" ]} |}.

Definition numeric_password : Request :=
  {| body := {[ "username" := JStr "dave";
                "email" := JStr "dave@example.com";
                "password" := JNum 123456%float ]} |}.


Definition alice_other_email : Request :=
  {| body := {[ "username" := JStr "alice";
                "email" := JStr "alice@elsewhere.example";
                "password" := JStr "another" ]} |}.

Definition next_conditions : Conditions :=
  {| unreachable := None;
     gen_random_uuid := fun k => gen_random_uuid sample_conditions (S k) |}.

(** ** Server start-up (lines 71-72) *)

(** [ToBoolean]: what [||] and [if] test. *)
Definition js_truthy (v : JSValue) : bool :=
  match v with
  | JUndefined | JNull => false
  | JBool b => b
  | JNum x => negb (PrimFloat.is_zero x || PrimFloat.is_nan x)
  | JStr s => negb (String.eqb s "")
  | JArr _ | JObj _ => true
  end.

(** [a || b]. *)
Definition js_or (a b : JSValue) : JSValue := if js_truthy a then a else b.

(** [process.env.K]: the variable's text, or [undefined]. *)
Definition process_env (env : gmap string string) (k : string) : JSValue :=
  match env !! k with
  | Some text => JStr text
  | None => JUndefined
  end.

(** [const PORT = process.env.PORT || 5000]. *)
Definition PORT (env : gmap string string) : JSValue :=
  js_or (process_env env "PORT") (JNum 5000%float).

(** ** The [posts] table (schema, lines 21-27)

    [id UUID PRIMARY KEY DEFAULT gen_random_uuid()], [title TEXT NOT NULL],
    [content TEXT NOT NULL], [author_id UUID REFERENCES users (id)],
    [created_at TIMESTAMP WITH TIME ZONE DEFAULT timezone('utc', now())]. *)
Module Posts.
Record row : Type :=
  { id : string; title : string; content : string;
    author_id : option string; created_at : string }.

Definition ids (tbl : list row) : list string := id <$> tbl.
End Posts.

(** The columns an insert into [posts] supplies; [id] and [created_at] take
    their defaults. *)
Module NewPost.
Record row : Type := { title : JSValue; content : JSValue; author_id : JSValue }.
End NewPost.

Record Database : Type := { users : list Users.row; posts : list Posts.row }.

Inductive PostViolation : Type :=
| InvalidUuid (text : string)
| PostNotNull (column : string)
| PostUnique (constraint : string)
| ForeignKey (constraint : string).

(** What an insert into [posts] takes from outside the tables: the draws of
    [gen_random_uuid()] and the value of [timezone('utc', now())]. *)
Record PostConditions : Type :=
  { post_uuid : nat -> string;
    now_utc : string }.

Section PostsStore.
Variable json_text : JSValue -> string.

(** The input conversion of the [UUID] type: the canonical text of a
    well-formed uuid, [None] for text that is not one.  Ids in [users] are
    canonical, being generated. *)
Variable uuid_of_text : string -> option string.

(** One row of a statement against the database so far: the [author_id]
    text is converted, [title] and [content] must not be null, the [id] must
    be new, and an [author_id] that is not null must be the [id] of a row of
    [users]. *)
Definition check_post (db : Database) (uuid : string) (now : string) (r : NewPost.row)
  : PostViolation + Posts.row :=
  let stored author :=
    match sql_text json_text (NewPost.title r) with
    | None => inl (PostNotNull "title")
    | Some t =>
      match sql_text json_text (NewPost.content r) with
      | None => inl (PostNotNull "content")
      | Some body_text =>
        if bool_decide (uuid ∈ Posts.ids (posts db)) then inl (PostUnique "posts_pkey")
        else
          match author with
          | Some a =>
              if bool_decide (a ∈ Users.ids (users db))
              then inr {| Posts.id := uuid; Posts.title := t; Posts.content := body_text;
                          Posts.author_id := Some a; Posts.created_at := now |}
              else inl (ForeignKey "posts_author_id_fkey")
          | None =>
              inr {| Posts.id := uuid; Posts.title := t; Posts.content := body_text;
                     Posts.author_id := None; Posts.created_at := now |}
          end
      end
    end in
  match sql_text json_text (NewPost.author_id r) with
  | None => stored None
  | Some text =>
      match uuid_of_text text with
      | None => inl (InvalidUuid text)
      | Some a => stored (Some a)
      end
  end.

Fixpoint insert_post_rows (pc : PostConditions) (k : nat) (rows : list NewPost.row)
    (db : Database) : PostViolation + Database :=
  match rows with
  | [] => inr db
  | r :: rest =>
      match check_post db (post_uuid pc k) (now_utc pc) r with
      | inl v => inl v
      | inr new =>
          insert_post_rows pc (S k) rest
            {| users := users db; posts := posts db ++ [new] |}
      end
  end.

(** One insert statement on [posts]: applied as a whole or not at all. *)
Definition insert_posts (pc : PostConditions) (rows : list NewPost.row) (db : Database)
  : option PostViolation * Database :=
  match insert_post_rows pc 0 rows db with
  | inl v => (Some v, db)
  | inr db' => (None, db')
  end.

(** The statements the schema admits: there is no update and no delete. *)
Inductive Statement : Type :=
| InsertUsers (c : Conditions) (rows : list Insert.row)
| InsertPosts (pc : PostConditions) (rows : list NewPost.row).

Definition execute (st : Statement) (db : Database) : Database :=
  match st with
  | InsertUsers c rows =>
      {| users := snd (insert_users json_text c rows (users db)); posts := posts db |}
  | InsertPosts pc rows => snd (insert_posts pc rows db)
  end.

(** The database after a list of statements, from the two empty tables. *)
Definition history (sts : list Statement) : Database :=
  foldl (fun db st => execute st db) {| users := []; posts := [] |} sts.
End PostsStore.

(** Every post that names an author names a row of [users]. *)
Definition authors_exist (db : Database) : Prop :=
  ∀ p a, p ∈ posts db -> Posts.author_id p = Some a -> a ∈ Users.ids (users db).

(** ** The React form (lines 97-124) *)

(** The three [useState('')] cells. *)
Module App.
Record state : Type := { username : string; email : string; password : string }.
End App.

Definition initial_state : App.state :=
  {| App.username := ""; App.email := ""; App.password := "" |}.

(** The [onChange] handlers of the three inputs, each with
    [e.target.value]. *)
Inductive Change : Type :=
| ChangeUsername (value : string)
| ChangeEmail (value : string)
| ChangePassword (value : string).

Definition on_change (s : App.state) (ch : Change) : App.state :=
  match ch with
  | ChangeUsername v =>
      {| App.username := v; App.email := App.email s; App.password := App.password s |}
  | ChangeEmail v =>
      {| App.username := App.username s; App.email := v; App.password := App.password s |}
  | ChangePassword v =>
      {| App.username := App.username s; App.email := App.email s; App.password := v |}
  end.

(** The state the component renders after a list of input events. *)
Definition typed (changes : list Change) : App.state :=
  foldl on_change initial_state changes.

(** The text of the last change of each input, if it was changed at all. *)
Definition last_username (changes : list Change) : option string :=
  last (omap (fun ch => match ch with ChangeUsername v => Some v | _ => None end) changes).

Definition last_email (changes : list Change) : option string :=
  last (omap (fun ch => match ch with ChangeEmail v => Some v | _ => None end) changes).

Definition last_password (changes : list Change) : option string :=
  last (omap (fun ch => match ch with ChangePassword v => Some v | _ => None end) changes).

Module Axios.
Record response : Type := { data : JSValue; status : Z }.
End Axios.

(** Programs of the browser side: [axios.post], the console, and
    [try { block } catch (error) { handler }]. *)
Inductive Client : Type :=
| Done
| AwaitAxiosPost (url : string) (sent : JSValue) (k : Axios.response -> Client)
| ConsoleLog (label : string) (value : JSValue) (k : Client)
| ConsoleError (label : string) (e : JsError) (k : Client)
| TryCatch (block : Client) (handler : JsError -> Client).

(** [handleRegister], lines 102-113, in a render whose state is [s]. *)
Definition handleRegister (s : App.state) : Client :=
  TryCatch
    (AwaitAxiosPost "http://localhost:5000/api/register"
       (JObj [("username", JStr (App.username s));
              ("email", JStr (App.email s));
              ("password", JStr (App.password s))])
       (fun response => ConsoleLog "User registered:" (Axios.data response) Done))
    (fun error => ConsoleError "Error registering user:" error Done).

Record ClientEnv (W : Type) : Type :=
  { axios_post : string -> JSValue -> W -> Settled Axios.response * W }.
Arguments axios_post {W} _ _ _ _.

Inductive ClientEvent : Type :=
| CPost (url : string) (sent : JSValue)
| CLog (label : string) (value : JSValue)
| CError (label : string) (e : JsError).

Record ClientRun (W : Type) : Type :=
  { client_outcome : Outcome unit; console : list ClientEvent; client_world : W }.
Arguments client_outcome {W} _.
Arguments console {W} _.
Arguments client_world {W} _.

Definition noted {W} (ev : ClientEvent) (r : ClientRun W) : ClientRun W :=
  {| client_outcome := client_outcome r;
     console := ev :: console r;
     client_world := client_world r |}.

Fixpoint run_client {W} (env : ClientEnv W) (p : Client) (w : W) : ClientRun W :=
  match p with
  | Done => {| client_outcome := Completed tt; console := []; client_world := w |}
  | AwaitAxiosPost url sent k =>
      match axios_post env url sent w with
      | (Resolved r, w') => noted (CPost url sent) (run_client env (k r) w')
      | (Rejected e, w') =>
          {| client_outcome := Uncaught e; console := [CPost url sent]; client_world := w' |}
      end
  | ConsoleLog label value k => noted (CLog label value) (run_client env k w)
  | ConsoleError label e k => noted (CError label e) (run_client env k w)
  | TryCatch block handler =>
      let tried := run_client env block w in
      match client_outcome tried with
      | Completed _ => tried
      | Uncaught e =>
          let caught := run_client env (handler e) (client_world tried) in
          {| client_outcome := client_outcome caught;
             console := console tried ++ console caught;
             client_world := client_world caught |}
      end
  end.

(** ** The request the form sends

    [bodyParser.json()] gives the handler the object that was posted,
    without the properties whose value is [undefined]. *)
Definition is_undefined (v : JSValue) : bool :=
  match v with
  | JUndefined => true
  | _ => false
  end.

Definition body_of_json (sent : JSValue) : gmap string JSValue :=
  match sent with
  | JObj fields =>
      list_to_map (filter (fun kv => is_undefined kv.2 = false) fields)
  | _ => ∅
  end.

(** ** Requests one after another *)

(** A request as it arrives, with what [bcrypt.hash] and the database will
    do for it. *)
Record Arrival : Type :=
  { arriving : Request;
    arrival_hash : JSValue -> Z -> Settled string;
    arrival_conditions : Conditions }.

(** The handler run for each arrival in turn, each on the table the previous
    one left: the responses sent so far and the table. *)
Definition serve (json_text : JSValue -> string)
    (other : string -> list Insert.row -> PostgrestResponse)
    (arrivals : list Arrival) (tbl : list Users.row)
  : list (Z * JSValue) * list Users.row :=
  foldl (fun '(sent, t) a =>
           let R := run (supabase json_text other (arrival_hash a) (arrival_conditions a))
                        (register (arriving a)) t in
           (sent ++ responses (trace R), world R))
        ([], tbl) arrivals.

(** The responses with status 201. *)
Definition created (sent : list (Z * JSValue)) : list (Z * JSValue) :=
  filter (fun r => r.1 = 201) sent.

(** ** More fixtures *)

Definition port_zero : gmap string string := {[ "PORT" := "0" ]}.






Definition alice_other_password : Request :=
  {| body := {[ "username" := JStr "alice";
                "email" := JStr "alice@example.com";
                "password" := JStr "correct horse" ]} |}.

Definition carol_arrives : Arrival :=
  {| arriving := blank_password;
     arrival_hash := bcryptjs_hash sample_digest;
     arrival_conditions := next_conditions |}.

Definition third_conditions : Conditions :=
  {| unreachable := None;
     gen_random_uuid := fun k => gen_random_uuid sample_conditions (S (S k)) |}.

(** * Properties *)

(** ** The scenarios of the specification, executed *)

Example alice_registers :
  let R := run (sample_env sample_conditions) (register alice) [] in
  outcome R = Completed tt
  ∧ responses (trace R) = [(201, JArr [row_json alice_row])]
  ∧ world R = [alice_row].
Proof. vm_compute. auto. Qed.

Example alice_registers_twice :
  let R := run (sample_env sample_conditions) (register alice) [alice_row] in
  outcome R = Completed tt
  ∧ (∃ m, responses (trace R) = [(400, JObj [("error", JStr m)])])
  ∧ world R = [alice_row].
Proof. vm_compute. eauto. Qed.

(** ** The four ways a run of the handler can go *)

Section Paths.
Context {W : Type} (env : Env W) (req : Request) (w : W).

Let password := prop (body req) "password".

Lemma run_hash_rejected e w1 :
  bcrypt_hash env password 10 w = (Rejected e, w1) ->
  run env (register req) w
  = {| outcome := Uncaught e; trace := [EvHash password 10]; world := w1 |}.
Proof. intros Hh. cbn. fold password. now rewrite Hh. Qed.

Lemma run_insert_rejected h w1 e w2 :
  bcrypt_hash env password 10 w = (Resolved h, w1) ->
  supabase_insert env "users" [new_user req h] w1 = (Rejected e, w2) ->
  run env (register req) w
  = {| outcome := Uncaught e;
       trace := [EvHash password 10; EvInsert "users" [new_user req h]];
       world := w2 |}.
Proof.
  intros Hh Hi. cbn. fold password. rewrite Hh. cbn.
  fold (new_user req h). now rewrite Hi.
Qed.

Lemma run_insert_error h w1 r w2 e :
  bcrypt_hash env password 10 w = (Resolved h, w1) ->
  supabase_insert env "users" [new_user req h] w1 = (Resolved r, w2) ->
  error r = Some e ->
  run env (register req) w
  = {| outcome := Completed tt;
       trace := [EvHash password 10; EvInsert "users" [new_user req h];
                 EvSend 400 (JObj [("error", JStr (message e))])];
       world := w2 |}.
Proof.
  intros Hh Hi He. cbn. fold password. rewrite Hh. cbn.
  fold (new_user req h). rewrite Hi. cbn. now rewrite He.
Qed.

Lemma run_insert_ok h w1 r w2 :
  bcrypt_hash env password 10 w = (Resolved h, w1) ->
  supabase_insert env "users" [new_user req h] w1 = (Resolved r, w2) ->
  error r = None ->
  run env (register req) w
  = {| outcome := Completed tt;
       trace := [EvHash password 10; EvInsert "users" [new_user req h];
                 EvSend 201 (data r)];
       world := w2 |}.
Proof.
  intros Hh Hi He. cbn. fold password. rewrite Hh. cbn.
  fold (new_user req h). rewrite Hi. cbn. now rewrite He.
Qed.
End Paths.

(** ** One insert statement on the [users] table *)

Section StoreFacts.
Variable json_text : JSValue -> string.

Lemma check_row_accepts tbl uuid r new :
  check_row json_text tbl uuid r = inr new ->
  sql_text json_text (Insert.username r) = Some (Users.username new)
  ∧ sql_text json_text (Insert.email r) = Some (Users.email new)
  ∧ sql_text json_text (Insert.password r) = Some (Users.password new)
  ∧ Users.id new = uuid
  ∧ (Users.id new ∉ Users.ids tbl)
  ∧ (Users.username new ∉ Users.usernames tbl)
  ∧ (Users.email new ∉ Users.emails tbl).
Proof.
  unfold check_row.
  destruct (sql_text _ (Insert.username r)) as [u|]; [|discriminate].
  destruct (sql_text _ (Insert.email r)) as [e|]; [|discriminate].
  destruct (sql_text _ (Insert.password r)) as [p|]; [|discriminate].
  repeat case_bool_decide; try discriminate.
  intros [= <-]. cbn. auto 10.
Qed.

(** A statement that succeeds appends one row per payload row and leaves
    the rows that were there as they were. *)
Lemma insert_rows_appends uuid rows : ∀ k tbl tbl',
  insert_rows json_text uuid k rows tbl = inr tbl' ->
  ∃ new, tbl' = tbl ++ new ∧ length new = length rows.
Proof.
  induction rows as [|r rows IH]; intros k tbl tbl'; cbn.
  - intros [= <-]. exists []. now rewrite app_nil_r.
  - destruct (check_row _ tbl (uuid k) r) as [v|row]; [discriminate|].
    intros Hrest. apply IH in Hrest as (new & -> & Hlen).
    exists (row :: new). rewrite <- app_assoc. cbn. auto.
Qed.

Lemma insert_rows_unique uuid rows : ∀ k tbl tbl',
  users_unique tbl ->
  insert_rows json_text uuid k rows tbl = inr tbl' ->
  users_unique tbl'.
Proof.
  induction rows as [|r rows IH]; intros k tbl tbl' Hu; cbn.
  - now intros [= <-].
  - destruct (check_row _ tbl (uuid k) r) as [v|row] eqn:Hrow; [discriminate|].
    apply IH. apply check_row_accepts in Hrow as (_ & _ & _ & _ & _ & Hn & He).
    destruct Hu as [Hun Hue]. unfold users_unique, Users.usernames, Users.emails in *.
    rewrite !fmap_app. cbn. split; apply NoDup_app; (split; [assumption|]);
      (split; [|apply NoDup_singleton]); intros x Hx ->%list_elem_of_singleton; tauto.
Qed.

(** The statement is atomic: an error leaves the table as it was. *)
Lemma insert_users_atomic c rows tbl :
  let '(r, tbl') := insert_users json_text c rows tbl in
  (∃ e, error r = Some e ∧ tbl' = tbl)
  ∨ (error r = None
     ∧ ∃ new, tbl' = tbl ++ new ∧ length new = length rows
              ∧ data r = JArr (row_json <$> new)).
Proof.
  unfold insert_users. destruct (unreachable c) as [msg|]; [left; eauto|].
  destruct (insert_rows _ _ 0 rows tbl) as [v|tbl'] eqn:Hins; [left; eauto|].
  right. split; [reflexivity|].
  apply insert_rows_appends in Hins as (new & -> & Hlen).
  exists new. cbn. now rewrite drop_app_length.
Qed.

Lemma insert_users_unique c rows tbl :
  users_unique tbl -> users_unique (snd (insert_users json_text c rows tbl)).
Proof.
  intros Hu. unfold insert_users. destruct (unreachable c); [exact Hu|].
  destruct (insert_rows _ _ 0 rows tbl) as [v|tbl'] eqn:Hins; [exact Hu|].
  cbn. eapply insert_rows_unique; eauto.
Qed.

(** A row whose username is taken is refused. *)
Lemma insert_users_taken c r tbl u :
  sql_text json_text (Insert.username r) = Some u ->
  u ∈ Users.usernames tbl ->
  ∃ e, error (fst (insert_users json_text c [r] tbl)) = Some e
       ∧ snd (insert_users json_text c [r] tbl) = tbl.
Proof.
  intros Hu Hin. unfold insert_users. destruct (unreachable c); [cbn; eauto|].
  cbn. destruct (check_row _ tbl _ r) as [v|row] eqn:Hrow; [cbn; eauto|].
  apply check_row_accepts in Hrow as (Hu' & _ & _ & _ & _ & Hn & _).
  rewrite Hu in Hu'. injection Hu' as ->. contradiction.
Qed.

Lemma reachable_unique tbl : reachable json_text tbl -> users_unique tbl.
Proof.
  induction 1 as [|c rows tbl _ IH].
  - split; constructor.
  - now apply insert_users_unique.
Qed.
End StoreFacts.

(** ** The handler's responses *)

(** C1: when the hash resolves and the insert reports no error, the handler
    completes having sent one response, with status 201, whose body is the
    [data] of the store's answer itself: nothing is removed from it. *)
Theorem register_created {W} (env : Env W) (req : Request) (w : W) h w1 r w2 :
  bcrypt_hash env (prop (body req) "password") 10 w = (Resolved h, w1) ->
  supabase_insert env "users" [new_user req h] w1 = (Resolved r, w2) ->
  error r = None ->
  let R := run env (register req) w in
  outcome R = Completed tt ∧ responses (trace R) = [(201, data r)].
Proof.
  intros Hh Hi He R. subst R.
  rewrite (run_insert_ok env req w h w1 r w2 Hh Hi He). split; reflexivity.
Qed.

Lemma register_created_witness :
  let R := run (sample_env sample_conditions) (register alice) [] in
  outcome R = Completed tt
  ∧ responses (trace R) = [(201, JArr [row_json alice_row])].
Proof.
  apply (register_created (sample_env sample_conditions) alice []
           (sample_digest "s3cret" 10) []
           {| data := JArr [row_json alice_row]; error := None |} [alice_row]);
    reflexivity.
Defined.

(** The stored password hash is part of the body that is sent when the store
    is the [users] table. *)
Lemma created_body_has_hash :
  responses (trace (run (sample_env sample_conditions) (register alice) []))
  = [(201, JArr [JObj [("id", JStr (Users.id alice_row));
                       ("username", JStr "alice");
                       ("email", JStr "alice@example.com");
                       ("password", JStr (sample_digest "s3cret" 10))]])].
Proof. reflexivity. Qed.

(** C2: when the hash resolves and the insert reports an error, whatever its
    code, details or hint, the handler sends one response, with status 400
    and body [{ error: m }] where [m] is the error's message. *)
Theorem register_store_error {W} (env : Env W) (req : Request) (w : W) h w1 r w2 e :
  bcrypt_hash env (prop (body req) "password") 10 w = (Resolved h, w1) ->
  supabase_insert env "users" [new_user req h] w1 = (Resolved r, w2) ->
  error r = Some e ->
  let R := run env (register req) w in
  outcome R = Completed tt
  ∧ responses (trace R) = [(400, JObj [("error", JStr (message e))])].
Proof.
  intros Hh Hi He R. subst R.
  rewrite (run_insert_error env req w h w1 r w2 e Hh Hi He). split; reflexivity.
Qed.

Lemma register_store_error_witness :
  let R := run (sample_env offline) (register alice) [] in
  outcome R = Completed tt
  ∧ responses (trace R)
    = [(400, JObj [("error", JStr "FetchError: request to the database failed")])].
Proof.
  apply (register_store_error (sample_env offline) alice []
           (sample_digest "s3cret" 10) []
           {| data := JNull;
              error := Some {| message := "FetchError: request to the database failed";
                               details := ""; hint := ""; code := "" |} |} []
           {| message := "FetchError: request to the database failed";
              details := ""; hint := ""; code := "" |});
    reflexivity.
Defined.

(** A uniqueness violation and an unreachable database are answered alike. *)
Lemma duplicate_and_offline_both_400 :
  fst <$> responses (trace (run (sample_env sample_conditions) (register alice) [alice_row]))
  = [400]
  ∧ fst <$> responses (trace (run (sample_env offline) (register alice) [alice_row]))
    = [400].
Proof. split; reflexivity. Qed.

(** C10: when the hash and the store call both return, exactly one response
    is sent and its status is 201 or 400. *)
Theorem register_one_response {W} (env : Env W) (req : Request) (w : W) h w1 r w2 :
  bcrypt_hash env (prop (body req) "password") 10 w = (Resolved h, w1) ->
  supabase_insert env "users" [new_user req h] w1 = (Resolved r, w2) ->
  ∃ status payload,
    responses (trace (run env (register req) w)) = [(status, payload)]
    ∧ (status = 201 ∨ status = 400).
Proof.
  intros Hh Hi. destruct (error r) as [e|] eqn:He.
  - rewrite (run_insert_error env req w h w1 r w2 e Hh Hi He).
    exists 400, (JObj [("error", JStr (message e))]). auto.
  - rewrite (run_insert_ok env req w h w1 r w2 Hh Hi He).
    exists 201, (data r). auto.
Qed.

Lemma register_one_response_witness :
  ∃ status payload,
    responses (trace (run (sample_env sample_conditions) (register alice) [alice_row]))
    = [(status, payload)]
    ∧ (status = 201 ∨ status = 400).
Proof.
  eapply (register_one_response (sample_env sample_conditions) alice [alice_row]);
    reflexivity.
Defined.

(** Whatever the collaborators do, the handler sends at most one response
    and no status other than 201 and 400. *)
Lemma register_statuses {W} (env : Env W) (req : Request) (w : W) :
  let sent := responses (trace (run env (register req) w)) in
  (length sent ≤ 1)%nat ∧ ∀ status payload, (status, payload) ∈ sent -> status = 201 ∨ status = 400.
Proof.
  cbn. destruct (bcrypt_hash env _ 10 w) as [[h|e] w1]; cbn.
  2: { split; [lia|]. intros ? ? []%elem_of_nil. }
  destruct (supabase_insert env "users" _ w1) as [[r|e] w2]; cbn.
  2: { split; [lia|]. intros ? ? []%elem_of_nil. }
  destruct (error r) as [e|]; cbn; (split; [lia|]);
    intros st b [= -> ->]%list_elem_of_singleton; auto.
Qed.


(** ** Failures *)

(** The handler has no [try]/[catch].  A request without a password makes
    [bcrypt.hash] reject; the rejection leaves the handler uncaught and no
    response is sent. *)
Lemma register_rejection_escapes :
  let R := run (sample_env sample_conditions) (register no_password) [] in
  outcome R = Uncaught {| err_message := "Illegal arguments: undefined, number" |}
  ∧ responses (trace R) = []
  ∧ world R = [].
Proof. vm_compute. auto. Qed.

(** C4, as the code has it: an error that the store reports in its answer
    becomes a 400 response and the handler completes; a rejection of the
    hashing step or of the store call is not caught: it leaves the handler
    and no response has been sent. *)
Theorem register_failures {W} (env : Env W) (req : Request) (w : W) :
  let R := run env (register req) w in
  let password := prop (body req) "password" in
  (∀ e w1,
     bcrypt_hash env password 10 w = (Rejected e, w1) ->
     outcome R = Uncaught e ∧ responses (trace R) = [] ∧ inserts (trace R) = [])
  ∧ (∀ h w1 e w2,
       bcrypt_hash env password 10 w = (Resolved h, w1) ->
       supabase_insert env "users" [new_user req h] w1 = (Rejected e, w2) ->
       outcome R = Uncaught e ∧ responses (trace R) = [])
  ∧ (∀ h w1 r w2 e,
       bcrypt_hash env password 10 w = (Resolved h, w1) ->
       supabase_insert env "users" [new_user req h] w1 = (Resolved r, w2) ->
       error r = Some e ->
       outcome R = Completed tt
       ∧ responses (trace R) = [(400, JObj [("error", JStr (message e))])]).
Proof.
  intros R password. subst R password. split; [|split].
  - intros e w1 Hh. now rewrite (run_hash_rejected env req w e w1 Hh).
  - intros h w1 e w2 Hh Hi. now rewrite (run_insert_rejected env req w h w1 e w2 Hh Hi).
  - intros h w1 r w2 e Hh Hi He.
    now rewrite (run_insert_error env req w h w1 r w2 e Hh Hi He).
Qed.

Lemma register_failures_witness :
  let R := run (sample_env sample_conditions) (register no_password) [] in
  outcome R = Uncaught {| err_message := "Illegal arguments: undefined, number" |}
  ∧ responses (trace R) = [] ∧ inserts (trace R) = [].
Proof.
  apply (proj1 (register_failures (sample_env sample_conditions) no_password [])
           {| err_message := "Illegal arguments: undefined, number" |} []).
  reflexivity.
Defined.

(** ** What the handler reads and what it passes on *)

(** C9: two requests whose bodies agree on [username], [email] and
    [password] are handled by the same program: against any collaborators
    and from any state the runs are equal, so the insert that is submitted,
    the response and the resulting state are the same. *)
Theorem register_reads_three_fields (req1 req2 : Request) :
  body req1 !! "username" = body req2 !! "username" ->
  body req1 !! "email" = body req2 !! "email" ->
  body req1 !! "password" = body req2 !! "password" ->
  register req1 = register req2
  ∧ ∀ W (env : Env W) (w : W),
      run env (register req1) w = run env (register req2) w.
Proof.
  intros Hu He Hp.
  assert (Heq : register req1 = register req2).
  { unfold register, prop. now rewrite Hu, He, Hp. }
  split; [exact Heq|]. intros W env w. now rewrite Heq.
Qed.

Lemma register_reads_three_fields_witness :
  register alice = register alice_as_admin
  ∧ ∀ W (env : Env W) (w : W),
      run env (register alice) w = run env (register alice_as_admin) w.
Proof.
  apply (register_reads_three_fields alice alice_as_admin); reflexivity.
Defined.

(** The calls of the concrete environment. *)
Lemma supabase_hash_call json_text other hash c s rounds tbl :
  bcrypt_hash (supabase json_text other hash c) s rounds tbl = (hash s rounds, tbl).
Proof. reflexivity. Qed.

Lemma supabase_insert_call json_text other hash c rows tbl :
  supabase_insert (supabase json_text other hash c) "users" rows tbl
  = (Resolved (fst (insert_users json_text c rows tbl)),
     snd (insert_users json_text c rows tbl)).
Proof. cbn. now destruct (insert_users json_text c rows tbl). Qed.

(** A run against the [users] table, once the hash is known. *)
Lemma run_supabase json_text other hash c req tbl h :
  hash (prop (body req) "password") 10 = Resolved h ->
  let ans := insert_users json_text c [new_user req h] tbl in
  run (supabase json_text other hash c) (register req) tbl
  = {| outcome := Completed tt;
       trace := [EvHash (prop (body req) "password") 10;
                 EvInsert "users" [new_user req h];
                 match error (fst ans) with
                 | Some e => EvSend 400 (JObj [("error", JStr (message e))])
                 | None => EvSend 201 (data (fst ans))
                 end];
       world := snd ans |}.
Proof.
  intros Hh ans. subst ans.
  pose proof (supabase_hash_call json_text other hash c
                (prop (body req) "password") 10 tbl) as Hc.
  rewrite Hh in Hc.
  pose proof (supabase_insert_call json_text other hash c [new_user req h] tbl) as Hi.
  destruct (error (fst (insert_users json_text c [new_user req h] tbl))) as [e|] eqn:He.
  - now rewrite (run_insert_error _ req tbl h tbl _ _ e Hc Hi He).
  - now rewrite (run_insert_ok _ req tbl h tbl _ _ Hc Hi He).
Qed.

(** One row submitted to the [users] table: either it is refused and the
    table stays as it was, or the table gains exactly the row whose columns
    are the submitted fields. *)
Lemma insert_users_single json_text c r tbl :
  let ans := insert_users json_text c [r] tbl in
  (∃ e, error (fst ans) = Some e ∧ snd ans = tbl)
  ∨ (error (fst ans) = None
     ∧ ∃ new, snd ans = tbl ++ [new]
              ∧ data (fst ans) = JArr [row_json new]
              ∧ sql_text json_text (Insert.username r) = Some (Users.username new)
              ∧ sql_text json_text (Insert.email r) = Some (Users.email new)
              ∧ sql_text json_text (Insert.password r) = Some (Users.password new)).
Proof.
  unfold insert_users. destruct (unreachable c) as [msg|]; [left; cbn; eauto|].
  cbn [insert_rows]. destruct (check_row json_text tbl _ r) as [v|new] eqn:Hrow;
    [left; cbn; eauto|].
  right. cbn [fst snd error data]. split; [reflexivity|]. exists new.
  apply check_row_accepts in Hrow as (Hu & He & Hp & _).
  rewrite drop_app_length. cbn. auto.
Qed.

Lemma run_supabase_rejected json_text other hash c req tbl e :
  hash (prop (body req) "password") 10 = Rejected e ->
  run (supabase json_text other hash c) (register req) tbl
  = {| outcome := Uncaught e;
       trace := [EvHash (prop (body req) "password") 10];
       world := tbl |}.
Proof.
  intros Hh. apply run_hash_rejected. now rewrite supabase_hash_call, Hh.
Qed.

(** C8: the handler validates nothing.  Whatever the body holds, the first
    thing it does is call [bcrypt.hash] on the [password] field as read
    ([undefined] when absent) with cost 10; when that resolves, the next
    thing is the insert of the [username] and [email] fields as read,
    together with the hash.  An empty-string password is hashed like any
    other, and when the [users] table accepts the row, the row with that
    hash is stored and the answer is 201. *)
Theorem register_no_validation :
  (∀ W (env : Env W) (req : Request) (w : W),
     let R := run env (register req) w in
     let password := prop (body req) "password" in
     head (trace R) = Some (EvHash password 10)
     ∧ ∀ h w1,
         bcrypt_hash env password 10 w = (Resolved h, w1) ->
         ∃ rest,
           trace R
           = EvHash password 10
             :: EvInsert "users"
                  [ {| Insert.username := prop (body req) "username";
                       Insert.email := prop (body req) "email";
                       Insert.password := JStr h |} ]
             :: rest)
  ∧ (∀ json_text other crypt c (req : Request) tbl,
       body req !! "password" = Some (JStr "") ->
       let R := run (supabase json_text other (bcryptjs_hash crypt) c) (register req) tbl in
       let ans := insert_users json_text c [new_user req (crypt "" 10)] tbl in
       head (trace R) = Some (EvHash (JStr "") 10)
       ∧ (error (fst ans) = None ->
          responses (trace R) = [(201, data (fst ans))]
          ∧ ∃ new, world R = tbl ++ [new] ∧ Users.password new = crypt "" 10)).
Proof.
  split.
  - intros W env req w R password. subst R password. split.
    + cbn. destruct (bcrypt_hash env _ 10 w) as [[h|e] w1]; reflexivity.
    + intros h w1 Hh. cbn. rewrite Hh. cbn.
      destruct (supabase_insert env "users" _ w1) as [[r|e] w2]; cbn; eauto.
  - intros json_text other crypt c req tbl Hpw R ans.
    assert (Hp : prop (body req) "password" = JStr "") by (unfold prop; now rewrite Hpw).
    assert (Hh : bcryptjs_hash crypt (prop (body req) "password") 10
                 = Resolved (crypt "" 10)) by now rewrite Hp.
    subst R. rewrite (run_supabase json_text other _ c req tbl _ Hh).
    fold ans. cbn [trace world]. rewrite Hp. split; [reflexivity|].
    intros Hok. rewrite Hok. split; [reflexivity|].
    destruct (insert_users_single json_text c (new_user req (crypt "" 10)) tbl)
      as [(e & He & _)|(_ & new & Hw & _ & _ & _ & Hpass)].
    + fold ans in He. congruence.
    + exists new. split; [exact Hw|]. cbn in Hpass. congruence.
Qed.

Lemma register_no_validation_witness :
  let R := run (sample_env sample_conditions) (register blank_password) [] in
  responses (trace R)
  = [(201, data (fst (insert_users no_json_text sample_conditions
                        [new_user blank_password (sample_digest "" 10)] [])))]
  ∧ ∃ new, world R = [] ++ [new] ∧ Users.password new = sample_digest "" 10.
Proof.
  apply (proj2 register_no_validation no_json_text no_other_table sample_digest
           sample_conditions blank_password []); reflexivity.
Defined.

(** ** Writes to the [users] table *)

(** When [bcrypt.hash] rejects, nothing is submitted and the table is as it
    was. *)
Lemma register_rejected_writes_nothing json_text other hash c (req : Request) tbl e :
  hash (prop (body req) "password") 10 = Rejected e ->
  let R := run (supabase json_text other hash c) (register req) tbl in
  inserts (trace R) = [] ∧ world R = tbl.
Proof.
  intros Hh R. subst R.
  now rewrite (run_supabase_rejected json_text other hash c req tbl e Hh).
Qed.

(** C3: a request submits one insert statement, once.  If the statement is
    refused, the table is unchanged and the answer is 400; a username that is
    already in the table is such a case.  If it is accepted, the table is the
    old one followed by one new row and the answer is 201. *)
Theorem register_store_effect json_text other hash c (req : Request) tbl h :
  hash (prop (body req) "password") 10 = Resolved h ->
  let R := run (supabase json_text other hash c) (register req) tbl in
  let ans := fst (insert_users json_text c [new_user req h] tbl) in
  inserts (trace R) = [("users", [new_user req h])]
  ∧ (∀ e, error ans = Some e ->
          world R = tbl
          ∧ responses (trace R) = [(400, JObj [("error", JStr (message e))])])
  ∧ (error ans = None ->
     ∃ new, world R = tbl ++ [new]
            ∧ length (world R) = S (length tbl)
            ∧ responses (trace R) = [(201, data ans)])
  ∧ (∀ u, sql_text json_text (prop (body req) "username") = Some u ->
          u ∈ Users.usernames tbl ->
          world R = tbl
          ∧ ∃ m, responses (trace R) = [(400, JObj [("error", JStr m)])]).
Proof.
  intros Hh R ans. subst R.
  rewrite (run_supabase json_text other hash c req tbl h Hh). cbn [trace world].
  fold ans.
  assert (Hrefused : ∀ e, error ans = Some e ->
            snd (insert_users json_text c [new_user req h] tbl) = tbl).
  { intros e He.
    destruct (insert_users_single json_text c (new_user req h) tbl)
      as [(e' & _ & Hw)|(Hok & _)]; [exact Hw|].
    fold ans in Hok. congruence. }
  split; [|split; [|split]].
  - now destruct (error ans).
  - intros e He. split; [eauto|]. now rewrite He.
  - intros Hok.
    destruct (insert_users_single json_text c (new_user req h) tbl)
      as [(e & He & _)|(_ & new & Hw & _)].
    + fold ans in He. congruence.
    + exists new. rewrite Hw, Hok, length_app. cbn.
      split; [reflexivity|]. split; [lia|reflexivity].
  - intros u Hu Hin.
    destruct (insert_users_taken json_text c (new_user req h) tbl u Hu Hin)
      as (e & He & Hw).
    fold ans in He. split; [exact Hw|]. rewrite He. eauto.
Qed.

Lemma register_store_effect_witness :
  let R := run (sample_env sample_conditions) (register alice) [alice_row] in
  let ans := fst (insert_users no_json_text sample_conditions
                    [new_user alice (sample_digest "s3cret" 10)] [alice_row]) in
  inserts (trace R) = [("users", [new_user alice (sample_digest "s3cret" 10)])]
  ∧ (∀ e, error ans = Some e ->
          world R = [alice_row]
          ∧ responses (trace R) = [(400, JObj [("error", JStr (message e))])])
  ∧ (error ans = None ->
     ∃ new, world R = [alice_row] ++ [new]
            ∧ length (world R) = 2%nat
            ∧ responses (trace R) = [(201, data ans)])
  ∧ (∀ u, sql_text no_json_text (JStr "alice") = Some u ->
          u ∈ Users.usernames [alice_row] ->
          world R = [alice_row]
          ∧ ∃ m, responses (trace R) = [(400, JObj [("error", JStr m)])]).
Proof.
  apply (register_store_effect no_json_text no_other_table
           (bcryptjs_hash sample_digest) sample_conditions alice [alice_row]
           (sample_digest "s3cret" 10)).
  reflexivity.
Defined.

(** ** Uniqueness of usernames and emails *)

Lemma users_unique_pairwise tbl :
  users_unique tbl ->
  ∀ i j r1 r2,
    tbl !! i = Some r1 -> tbl !! j = Some r2 ->
    Users.username r1 = Users.username r2 ∨ Users.email r1 = Users.email r2 ->
    i = j.
Proof.
  intros [Hun Hue] i j r1 r2 Hi Hj [Heq|Heq].
  - eapply NoDup_lookup; [exact Hun| |];
      unfold Users.usernames; rewrite list_lookup_fmap; [rewrite Hi|rewrite Hj];
      cbn; [reflexivity|now rewrite Heq].
  - eapply NoDup_lookup; [exact Hue| |];
      unfold Users.emails; rewrite list_lookup_fmap; [rewrite Hi|rewrite Hj];
      cbn; [reflexivity|now rewrite Heq].
Qed.

(** The calls the handler makes do not depend on what the table holds: it
    looks nothing up before it inserts. *)
Lemma register_calls_blind json_text other hash c (req : Request) tbl1 tbl2 :
  calls (trace (run (supabase json_text other hash c) (register req) tbl1))
  = calls (trace (run (supabase json_text other hash c) (register req) tbl2)).
Proof.
  destruct (hash (prop (body req) "password") 10) as [h|e] eqn:Hh.
  - rewrite !(run_supabase json_text other hash c req _ h Hh). cbn [trace].
    destruct (error (fst (insert_users json_text c [new_user req h] tbl1)));
      destruct (error (fst (insert_users json_text c [new_user req h] tbl2)));
      reflexivity.
  - now rewrite !(run_supabase_rejected json_text other hash c req _ e Hh).
Qed.

Lemma register_reachable json_text other hash c (req : Request) tbl :
  reachable json_text tbl ->
  reachable json_text (world (run (supabase json_text other hash c) (register req) tbl)).
Proof.
  intros Hr. destruct (hash (prop (body req) "password") 10) as [h|e] eqn:Hh.
  - rewrite (run_supabase json_text other hash c req tbl h Hh). cbn [world].
    now apply reachable_insert.
  - now rewrite (run_supabase_rejected json_text other hash c req tbl e Hh).
Qed.

(** C7: in every state the table can reach, no two rows share a username
    and no two rows share an email.  Every insert statement keeps it so,
    whoever submits it and whatever it holds, and so does every run of the
    handler; the handler itself makes the same calls whatever the table
    holds, so the refusal of a duplicate is the table's. *)
Theorem users_stay_unique json_text tbl :
  reachable json_text tbl ->
  (∀ i j r1 r2,
     tbl !! i = Some r1 -> tbl !! j = Some r2 ->
     Users.username r1 = Users.username r2 ∨ Users.email r1 = Users.email r2 ->
     i = j)
  ∧ users_unique tbl
  ∧ (∀ c rows, users_unique (snd (insert_users json_text c rows tbl)))
  ∧ (∀ other hash c (req : Request),
       let R := run (supabase json_text other hash c) (register req) tbl in
       users_unique (world R)
       ∧ ∀ tbl2,
           calls (trace (run (supabase json_text other hash c) (register req) tbl2))
           = calls (trace R)).
Proof.
  intros Hr. pose proof (reachable_unique json_text tbl Hr) as Hu.
  split; [now apply users_unique_pairwise|]. split; [exact Hu|]. split.
  - intros c rows. now apply insert_users_unique.
  - intros other hash c req R. subst R. split.
    + apply (reachable_unique json_text). now apply register_reachable.
    + intros tbl2. apply register_calls_blind.
Qed.

Lemma alice_row_reachable : reachable no_json_text [alice_row].
Proof.
  exact (reachable_insert no_json_text sample_conditions
           [new_user alice (sample_digest "s3cret" 10)] []
           (reachable_created no_json_text)).
Qed.

Lemma users_stay_unique_witness :
  users_unique [alice_row]
  ∧ ∀ c rows, users_unique (snd (insert_users no_json_text c rows [alice_row])).
Proof.
  pose proof (users_stay_unique no_json_text [alice_row] alice_row_reachable)
    as (_ & Hu & Hins & _).
  split; assumption.
Defined.

(** * Further properties of the handler and the [users] table *)

(** ** When a row is accepted *)

Lemma check_row_id json_text tbl uuid r new :
  check_row json_text tbl uuid r = inr new ->
  new = {| Users.id := uuid;
           Users.username := Users.username new;
           Users.email := Users.email new;
           Users.password := Users.password new |}.
Proof.
  intros (_ & _ & _ & <- & _)%check_row_accepts. now destruct new.
Qed.

(** The answer to a one-row statement has no error exactly when the
    database was reached and the row passed every check. *)
Lemma insert_users_single_ok json_text c r tbl :
  error (fst (insert_users json_text c [r] tbl)) = None
  <-> unreachable c = None
      ∧ ∃ new, check_row json_text tbl (gen_random_uuid c 0) r = inr new.
Proof.
  unfold insert_users. destruct (unreachable c) as [msg|]; cbn.
  - split; [discriminate|]. now intros [? _].
  - destruct (check_row json_text tbl _ r) as [v|new]; cbn.
    + split; [discriminate|]. now intros (_ & ? & ?).
    + split; eauto.
Qed.

Lemma insert_users_single_row json_text c r tbl new :
  unreachable c = None ->
  check_row json_text tbl (gen_random_uuid c 0) r = inr new ->
  insert_users json_text c [r] tbl
  = ({| data := JArr [row_json new]; error := None |}, tbl ++ [new]).
Proof.
  intros Hc Hrow. unfold insert_users. rewrite Hc. cbn. rewrite Hrow.
  now rewrite drop_app_length.
Qed.


(** ** Requests the handler cannot complete *)

(** X1: when the [password] field is anything but a string (absent, null, a
    number, an object), [bcryptjs] rejects, the handler ends with that
    error uncaught, nothing is sent, nothing is submitted to the store and
    the table is as it was. *)
Theorem register_non_string_password json_text other crypt c (req : Request) tbl :
  (∀ p, prop (body req) "password" ≠ JStr p) ->
  let R := run (supabase json_text other (bcryptjs_hash crypt) c) (register req) tbl in
  outcome R
  = Uncaught {| err_message := "Illegal arguments: "
                               +:+ js_typeof (prop (body req) "password")
                               +:+ ", number" |}
  ∧ trace R = [EvHash (prop (body req) "password") 10]
  ∧ world R = tbl.
Proof.
  intros Hns R. subst R.
  rewrite (run_supabase_rejected json_text other (bcryptjs_hash crypt) c req tbl
             {| err_message := "Illegal arguments: "
                               +:+ js_typeof (prop (body req) "password")
                               +:+ ", number" |}).
  - auto.
  - destruct (prop (body req) "password") as [| | | |p| |] eqn:Hp;
      try reflexivity. now destruct (Hns p).
Qed.

Lemma register_non_string_password_witness :
  let R := run (sample_env sample_conditions) (register numeric_password) [alice_row] in
  outcome R = Uncaught {| err_message := "Illegal arguments: number, number" |}
  ∧ trace R = [EvHash (JNum 123456%float) 10]
  ∧ world R = [alice_row].
Proof.
  apply (register_non_string_password no_json_text no_other_table sample_digest
           sample_conditions numeric_password [alice_row]).
  intros p. vm_compute. discriminate.
Defined.

(** ** Requests the table refuses *)



(** ** Registering, then looking the user up *)

Lemma filter_absent {A} (f : A -> string) (x : string) (l : list A) :
  x ∉ f <$> l -> filter (fun a => f a = x) l = [].
Proof.
  induction l as [|a l IH]; [reflexivity|]. cbn [fmap list_fmap].
  intros [Hne Hnin]%not_elem_of_cons. rewrite filter_cons.
  destruct (decide (f a = x)) as [Heq|_]; [now destruct Hne|]. now apply IH.
Qed.

(** What a 201 answer says about the run. *)
Lemma run_supabase_accepted json_text other hash c (req : Request) tbl h payload :
  hash (prop (body req) "password") 10 = Resolved h ->
  responses (trace (run (supabase json_text other hash c) (register req) tbl))
  = [(201, payload)] ->
  ∃ u e,
    sql_text json_text (prop (body req) "username") = Some u
    ∧ sql_text json_text (prop (body req) "email") = Some e
    ∧ (u ∉ Users.usernames tbl) ∧ (e ∉ Users.emails tbl)
    ∧ let new := {| Users.id := gen_random_uuid c 0; Users.username := u;
                    Users.email := e; Users.password := h |} in
      world (run (supabase json_text other hash c) (register req) tbl) = tbl ++ [new]
      ∧ payload = JArr [row_json new].
Proof.
  intros Hh. rewrite (run_supabase json_text other hash c req tbl h Hh).
  cbn [trace world].
  pose proof (insert_users_single_ok json_text c (new_user req h) tbl) as Hok.
  destruct (error (fst (insert_users json_text c [new_user req h] tbl))) as [err|];
    [intros [=]|].
  destruct (proj1 Hok eq_refl) as (Hc & new & Hrow).
  rewrite (insert_users_single_row json_text c _ tbl new Hc Hrow). cbn.
  intros [= <-]. pose proof (check_row_id _ _ _ _ _ Hrow) as Hnew.
  apply check_row_accepts in Hrow as (Hu & He & Hp & _ & _ & Hun & Hem).
  cbn in Hp. injection Hp as Hp. rewrite <- Hp in Hnew.
  exists (Users.username new), (Users.email new).
  rewrite <- Hnew. auto 10.
Qed.

(** X4: a request answered 201 has added exactly one row: its id is the
    value the database generated, its username and email are the submitted
    ones, its password column is the hash.  Selecting the table by that
    username, or by that email, gives that row and no other. *)
Theorem register_then_lookup json_text other hash c (req : Request) tbl h payload :
  hash (prop (body req) "password") 10 = Resolved h ->
  responses (trace (run (supabase json_text other hash c) (register req) tbl))
  = [(201, payload)] ->
  ∃ u e,
    sql_text json_text (prop (body req) "username") = Some u
    ∧ sql_text json_text (prop (body req) "email") = Some e
    ∧ let new := {| Users.id := gen_random_uuid c 0; Users.username := u;
                    Users.email := e; Users.password := h |} in
      let after := world (run (supabase json_text other hash c) (register req) tbl) in
      after = tbl ++ [new]
      ∧ filter (fun r => Users.username r = u) after = [new]
      ∧ filter (fun r => Users.email r = e) after = [new].
Proof.
  intros Hh H201.
  destruct (run_supabase_accepted json_text other hash c req tbl h payload Hh H201)
    as (u & e & Hu & He & Hun & Hem & Hafter & _).
  exists u, e. split; [exact Hu|]. split; [exact He|]. cbv zeta.
  rewrite Hafter. split; [reflexivity|].
  rewrite !filter_app, (filter_absent Users.username _ tbl Hun),
    (filter_absent Users.email _ tbl Hem), !filter_cons, !decide_True by reflexivity.
  split; reflexivity.
Qed.

Lemma register_then_lookup_witness :
  ∃ u e,
    sql_text no_json_text (prop (body alice) "username") = Some u
    ∧ sql_text no_json_text (prop (body alice) "email") = Some e
    ∧ let new := {| Users.id := gen_random_uuid sample_conditions 0;
                    Users.username := u; Users.email := e;
                    Users.password := sample_digest "s3cret" 10 |} in
      let after := world (run (sample_env sample_conditions) (register alice) []) in
      after = [] ++ [new]
      ∧ filter (fun r => Users.username r = u) after = [new]
      ∧ filter (fun r => Users.email r = e) after = [new].
Proof.
  apply (register_then_lookup no_json_text no_other_table (bcryptjs_hash sample_digest)
           sample_conditions alice [] (sample_digest "s3cret" 10)
           (JArr [row_json alice_row])); reflexivity.
Defined.

(** ** Registering again *)

Lemma insert_users_email_taken json_text c r tbl e :
  sql_text json_text (Insert.email r) = Some e ->
  e ∈ Users.emails tbl ->
  ∃ err, error (fst (insert_users json_text c [r] tbl)) = Some err
         ∧ snd (insert_users json_text c [r] tbl) = tbl.
Proof.
  intros He Hin. unfold insert_users. destruct (unreachable c); [cbn; eauto|].
  cbn. destruct (check_row _ tbl _ r) as [v|row] eqn:Hrow; [cbn; eauto|].
  apply check_row_accepts in Hrow as (_ & He' & _ & _ & _ & _ & Hn).
  rewrite He in He'. injection He' as ->. contradiction.
Qed.

Lemma run_supabase_taken json_text other hash c (req : Request) tbl h :
  hash (prop (body req) "password") 10 = Resolved h ->
  (∃ u, sql_text json_text (prop (body req) "username") = Some u
        ∧ u ∈ Users.usernames tbl)
  ∨ (∃ e, sql_text json_text (prop (body req) "email") = Some e
          ∧ e ∈ Users.emails tbl) ->
  let R := run (supabase json_text other hash c) (register req) tbl in
  world R = tbl ∧ ∃ m, responses (trace R) = [(400, JObj [("error", JStr m)])].
Proof.
  intros Hh Htaken R. subst R.
  rewrite (run_supabase json_text other hash c req tbl h Hh). cbn [trace world].
  assert (∃ err, error (fst (insert_users json_text c [new_user req h] tbl)) = Some err
                 ∧ snd (insert_users json_text c [new_user req h] tbl) = tbl)
    as (err & Herr & Hw).
  { destruct Htaken as [(u & Hu & Hin)|(e & He & Hin)].
    - now apply (insert_users_taken json_text c (new_user req h) tbl u).
    - now apply (insert_users_email_taken json_text c (new_user req h) tbl e). }
  rewrite Herr. split; [exact Hw|]. cbn. eauto.
Qed.

(** ** What never happens to the table *)

Lemma insert_users_prefix json_text c rows tbl :
  tbl `prefix_of` snd (insert_users json_text c rows tbl).
Proof.
  pose proof (insert_users_atomic json_text c rows tbl) as H.
  destruct (insert_users json_text c rows tbl) as [r tbl'].
  destruct H as [(e & _ & ->)|(_ & new & -> & _)]; cbn.
  - reflexivity.
  - now apply prefix_app_r.
Qed.

(** X6: no insert statement and no run of the handler removes or changes a
    row that is already in the table: the old table is a prefix of the new
    one.  A run of the handler, whatever [bcrypt.hash] and the database do,
    adds at most one row. *)
Theorem users_only_grow json_text :
  (∀ c rows tbl, tbl `prefix_of` snd (insert_users json_text c rows tbl))
  ∧ (∀ other hash c (req : Request) tbl,
       let R := run (supabase json_text other hash c) (register req) tbl in
       tbl `prefix_of` world R ∧ (length (world R) ≤ S (length tbl))%nat).
Proof.
  split; [apply insert_users_prefix|].
  intros other hash c req tbl R. subst R.
  destruct (hash (prop (body req) "password") 10) as [h|e] eqn:Hh.
  - rewrite (run_supabase json_text other hash c req tbl h Hh). cbn [world].
    split; [apply insert_users_prefix|].
    destruct (insert_users_single json_text c (new_user req h) tbl)
      as [(err & _ & ->)|(_ & new & -> & _)]; [lia|].
    rewrite length_app. cbn. lia.
  - rewrite (run_supabase_rejected json_text other hash c req tbl e Hh). cbn [world].
    split; [reflexivity|lia].
Qed.

(** ** The primary key *)

Lemma insert_rows_ids json_text uuid rows : ∀ k tbl tbl',
  NoDup (Users.ids tbl) ->
  insert_rows json_text uuid k rows tbl = inr tbl' ->
  NoDup (Users.ids tbl').
Proof.
  induction rows as [|r rows IH]; intros k tbl tbl' Hnd; cbn.
  - now intros [= <-].
  - destruct (check_row _ tbl (uuid k) r) as [v|row] eqn:Hrow; [discriminate|].
    apply IH. apply check_row_accepts in Hrow as (_ & _ & _ & _ & Hid & _).
    unfold Users.ids in *. rewrite fmap_app. cbn. apply NoDup_app.
    split; [assumption|]. split; [|apply NoDup_singleton].
    intros x Hx ->%list_elem_of_singleton. contradiction.
Qed.

(** X7: in every state the table can reach, no two rows have the same [id],
    even when [gen_random_uuid()] draws a value a second time: the
    statement that would store it is refused. *)
Theorem users_ids_unique json_text tbl :
  reachable json_text tbl ->
  NoDup (Users.ids tbl)
  ∧ ∀ c r,
      gen_random_uuid c 0 ∈ Users.ids tbl ->
      snd (insert_users json_text c [r] tbl) = tbl
      ∧ ∃ e, error (fst (insert_users json_text c [r] tbl)) = Some e.
Proof.
  intros Hr. split.
  - induction Hr as [|c rows tbl _ IH]; [constructor|].
    unfold insert_users. destruct (unreachable c); [exact IH|].
    destruct (insert_rows _ _ 0 rows tbl) as [v|tbl'] eqn:Hins; [exact IH|].
    cbn. eapply insert_rows_ids; eauto.
  - intros c r Hdup.
    destruct (insert_users_single json_text c r tbl)
      as [(e & He & Hw)|(Hok & _)]; [eauto|].
    apply insert_users_single_ok in Hok as (_ & new & Hrow).
    apply check_row_accepts in Hrow as (_ & _ & _ & Hid & Hfresh & _).
    rewrite Hid in Hfresh. contradiction.
Qed.

Lemma users_ids_unique_witness :
  NoDup (Users.ids [alice_row])
  ∧ ∀ c r,
      gen_random_uuid c 0 ∈ Users.ids [alice_row] ->
      snd (insert_users no_json_text c [r] [alice_row]) = [alice_row]
      ∧ ∃ e, error (fst (insert_users no_json_text c [r] [alice_row])) = Some e.
Proof.
  exact (users_ids_unique no_json_text [alice_row] alice_row_reachable).
Defined.

(** * The rest of the walkthrough *)

(** ** The listening port *)

(** X8: the server falls back to port 5000 exactly when the [PORT] variable
    is unset or empty.  Any other text is used as it stands, as a string:
    [PORT=0] gives ["0"], not the fallback. *)
Theorem PORT_fallback (env : gmap string string) :
  (PORT env = JNum 5000%float <-> env !! "PORT" = None ∨ env !! "PORT" = Some "")
  ∧ (∀ text, env !! "PORT" = Some text -> text ≠ "" -> PORT env = JStr text).
Proof.
  unfold PORT, js_or, process_env. destruct (env !! "PORT") as [text|]; cbn.
  - destruct (String.eqb_spec text "") as [->|Hne]; cbn.
    + split; [split; auto|]. intros ? [= <-] []; reflexivity.
    + split.
      * split; [discriminate|]. intros [[=]|[= ->]]. now destruct Hne.
      * now intros ? [= <-] _.
  - split; [split; auto|]. intros ? [=].
Qed.

(** ** The form *)

Lemma typed_snoc changes ch : typed (changes ++ [ch]) = on_change (typed changes) ch.
Proof. unfold typed. now rewrite foldl_app. Qed.

(** X9: whatever is typed into the three inputs, in any order, each field of
    the state holds the text of the last change of its own input, and the
    empty string when its input was never changed. *)
Theorem typed_fields (changes : list Change) :
  App.username (typed changes) = default "" (last_username changes)
  ∧ App.email (typed changes) = default "" (last_email changes)
  ∧ App.password (typed changes) = default "" (last_password changes).
Proof.
  unfold last_username, last_email, last_password.
  induction changes as [|ch changes (IHu & IHe & IHp)] using rev_ind; [now cbn|].
  rewrite typed_snoc, !omap_app.
  destruct ch as [v|v|v]; cbn; rewrite ?app_nil_r, ?last_snoc; auto.
Qed.

(** X10: [handleRegister] never throws.  It posts the three fields of the
    state once, to the fixed address; when [axios.post] resolves it logs the
    body of the response, and when [axios.post] rejects the error is caught
    and logged.  Nothing else is written and no second request is made. *)
Theorem handleRegister_catches {W} (env : ClientEnv W) (s : App.state) (w : W) :
  let url := "http://localhost:5000/api/register" in
  let sent := JObj [("username", JStr (App.username s));
                    ("email", JStr (App.email s));
                    ("password", JStr (App.password s))] in
  let R := run_client env (handleRegister s) w in
  client_outcome R = Completed tt
  ∧ client_world R = snd (axios_post env url sent w)
  ∧ console R
    = [CPost url sent;
       match fst (axios_post env url sent w) with
       | Resolved response => CLog "User registered:" (Axios.data response)
       | Rejected error => CError "Error registering user:" error
       end].
Proof.
  cbn. destruct (axios_post env _ _ w) as [[response|error] w']; cbn; auto.
Qed.

(** ** The form's request at the handler *)

Lemma run_handleRegister {W} (env : ClientEnv W) (s : App.state) (w : W) :
  run_client env (handleRegister s) w
  = let url := "http://localhost:5000/api/register" in
    let sent := JObj [("username", JStr (App.username s));
                      ("email", JStr (App.email s));
                      ("password", JStr (App.password s))] in
    {| client_outcome := Completed tt;
       console := [CPost url sent;
                   match fst (axios_post env url sent w) with
                   | Resolved response => CLog "User registered:" (Axios.data response)
                   | Rejected error => CError "Error registering user:" error
                   end];
       client_world := snd (axios_post env url sent w) |}.
Proof.
  cbn. now destruct (axios_post env _ _ w) as [[response|error] w'].
Qed.

(** The request the handler receives for a click on the form. *)
Lemma form_request (s : App.state) :
  let req := {| body := body_of_json
                          (JObj [("username", JStr (App.username s));
                                 ("email", JStr (App.email s));
                                 ("password", JStr (App.password s))]) |} in
  prop (body req) "username" = JStr (App.username s)
  ∧ prop (body req) "email" = JStr (App.email s)
  ∧ prop (body req) "password" = JStr (App.password s).
Proof. vm_compute. auto. Qed.

(** X11: the object [handleRegister] posts has three string fields, so
    when it is the body the handler receives, [bcrypt.hash] is called on the
    typed password and does not reject for its argument: the handler
    completes, submits the typed username and email with the hash, and
    sends one response, 201 or 400.  The uncaught rejection of a request
    without a password cannot be caused from the form. *)
Theorem form_request_handled json_text other crypt c (s : App.state) tbl :
  let sent := JObj [("username", JStr (App.username s));
                    ("email", JStr (App.email s));
                    ("password", JStr (App.password s))] in
  let R := run (supabase json_text other (bcryptjs_hash crypt) c)
               (register {| body := body_of_json sent |}) tbl in
  (∀ W (env : ClientEnv W) (w : W),
     head (console (run_client env (handleRegister s) w))
     = Some (CPost "http://localhost:5000/api/register" sent))
  ∧ outcome R = Completed tt
  ∧ (∃ answer,
       trace R
       = [EvHash (JStr (App.password s)) 10;
          EvInsert "users"
            [ {| Insert.username := JStr (App.username s);
                 Insert.email := JStr (App.email s);
                 Insert.password := JStr (crypt (App.password s) 10) |} ];
          answer])
  ∧ ∃ status payload,
      responses (trace R) = [(status, payload)] ∧ (status = 201 ∨ status = 400).
Proof.
  intros sent R. subst R. split.
  { intros W env w. now rewrite run_handleRegister. }
  destruct (form_request s) as (Hu & He & Hp). fold sent in Hu, He, Hp.
  rewrite (run_supabase json_text other (bcryptjs_hash crypt) c _ tbl
             (crypt (App.password s) 10)) by now rewrite Hp.
  cbn [outcome trace]. unfold new_user. rewrite Hu, He, Hp.
  split; [reflexivity|]. split; [eauto|].
  match goal with |- context [error ?a] => destruct (error a) end; cbn; eauto.
Qed.

(** ** Posts and their authors *)

Section PostsFacts.
Variable json_text : JSValue -> string.
Variable uuid_of_text : string -> option string.

Lemma check_post_accepts db uuid now r new :
  check_post json_text uuid_of_text db uuid now r = inr new ->
  Posts.id new = uuid
  ∧ (uuid ∉ Posts.ids (posts db))
  ∧ ∀ a, Posts.author_id new = Some a -> a ∈ Users.ids (users db).
Proof.
  unfold check_post. intros Hnew.
  repeat case_match; repeat case_bool_decide; try discriminate;
    injection Hnew as <-; cbn; (split; [reflexivity|]); (split; [assumption|]);
    intros a' [=]; subst; assumption.
Qed.

Lemma insert_post_rows_keeps pc rows : ∀ k db db',
  authors_exist db -> NoDup (Posts.ids (posts db)) ->
  insert_post_rows json_text uuid_of_text pc k rows db = inr db' ->
  authors_exist db' ∧ NoDup (Posts.ids (posts db')) ∧ users db' = users db.
Proof.
  induction rows as [|r rows IH]; intros k db db' Hfk Hnd; cbn.
  - intros [= <-]. auto.
  - destruct (check_post _ _ db _ _ r) as [v|new] eqn:Hnew; [discriminate|].
    intros Hrest. apply check_post_accepts in Hnew as (Hid & Hfresh & Hauthor).
    apply IH in Hrest as (Hfk' & Hnd' & Husers); [auto| |].
    + intros p a [Hp | ->%list_elem_of_singleton]%elem_of_app Ha; cbn; eauto.
    + cbn. unfold Posts.ids in *. rewrite fmap_app. cbn. apply NoDup_app.
      split; [assumption|]. split; [|apply NoDup_singleton].
      intros x Hx ->%list_elem_of_singleton. rewrite Hid in Hx. contradiction.
Qed.

Lemma execute_keeps st db :
  authors_exist db -> NoDup (Posts.ids (posts db)) ->
  authors_exist (execute json_text uuid_of_text st db)
  ∧ NoDup (Posts.ids (posts (execute json_text uuid_of_text st db))).
Proof.
  intros Hfk Hnd. destruct st as [c rows|pc rows]; cbn.
  - split; [|exact Hnd]. intros p a Hp Ha. cbn in *.
    destruct (insert_users_prefix json_text c rows (users db)) as [more ->].
    unfold Users.ids. rewrite fmap_app. apply elem_of_app. left. now apply (Hfk p).
  - unfold insert_posts.
    destruct (insert_post_rows _ _ pc 0 rows db) as [v|db'] eqn:Hins; cbn; [auto|].
    apply insert_post_rows_keeps in Hins as (? & ? & _); auto.
Qed.

Lemma history_snoc sts st :
  history json_text uuid_of_text (sts ++ [st])
  = execute json_text uuid_of_text st (history json_text uuid_of_text sts).
Proof. unfold history. now rewrite foldl_app. Qed.

Lemma history_keeps sts :
  authors_exist (history json_text uuid_of_text sts)
  ∧ NoDup (Posts.ids (posts (history json_text uuid_of_text sts))).
Proof.
  induction sts as [|st sts [Hfk Hnd]] using rev_ind.
  - split; [intros ? ? []%elem_of_nil|constructor].
  - rewrite history_snoc. now apply execute_keeps.
Qed.

Lemma insert_post_rows_users pc rows : ∀ k db db',
  insert_post_rows json_text uuid_of_text pc k rows db = inr db' ->
  users db' = users db.
Proof.
  induction rows as [|r rows IH]; intros k db db'; cbn.
  - now intros [= <-].
  - destruct (check_post _ _ db _ _ r) as [v|new]; [discriminate|].
    intros Hrest. now apply IH in Hrest.
Qed.

Lemma history_users_reachable sts :
  reachable json_text (users (history json_text uuid_of_text sts)).
Proof.
  induction sts as [|st sts IH] using rev_ind; [constructor|].
  rewrite history_snoc. destruct st as [c rows|pc rows]; cbn.
  - now apply reachable_insert.
  - unfold insert_posts.
    destruct (insert_post_rows _ _ pc 0 rows _) as [v|db'] eqn:Hins; cbn; [exact IH|].
    apply insert_post_rows_users in Hins. now rewrite Hins.
Qed.

(** X13: after any list of insert statements on the two tables, every post
    that names an author names the [id] of a row of [users], no two posts
    have the same [id], and no two users share a username or an email.
    Nothing in the schema's statements can remove the user a post refers
    to. *)
Theorem posts_authors_exist (sts : list Statement) :
  let db := history json_text uuid_of_text sts in
  authors_exist db
  ∧ NoDup (Posts.ids (posts db))
  ∧ users_unique (users db).
Proof.
  intros db. subst db. destruct (history_keeps sts) as [Hfk Hnd].
  split; [exact Hfk|]. split; [exact Hnd|].
  apply (reachable_unique json_text), history_users_reachable.
Qed.

End PostsFacts.


Lemma PORT_fallback_witness :
  PORT port_zero = JStr "0" ∧ PORT ∅ = JNum 5000%float.
Proof.
  split.
  - apply (proj2 (PORT_fallback port_zero) "0"); [reflexivity | discriminate].
  - apply (proj1 (PORT_fallback ∅)). left. reflexivity.
Defined.

(** ** One row for every 201 *)

Lemma run_supabase_cases json_text other hash c (req : Request) tbl :
  let R := run (supabase json_text other hash c) (register req) tbl in
  (world R = tbl ∧ created (responses (trace R)) = [])
  ∨ (∃ new payload,
       world R = tbl ++ [new] ∧ responses (trace R) = [(201, payload)]).
Proof.
  intros R. subst R.
  destruct (hash (prop (body req) "password") 10) as [h|e] eqn:Hh.
  - rewrite (run_supabase json_text other hash c req tbl h Hh). cbn [trace world].
    destruct (insert_users_single json_text c (new_user req h) tbl)
      as [(err & -> & ->)|(-> & new & -> & _)].
    + left. split; reflexivity.
    + right. exists new. eexists. split; reflexivity.
  - rewrite (run_supabase_rejected json_text other hash c req tbl e Hh). cbn.
    left. split; reflexivity.
Qed.

Lemma serve_snoc json_text other arrivals a tbl :
  serve json_text other (arrivals ++ [a]) tbl
  = let '(sent, t) := serve json_text other arrivals tbl in
    let R := run (supabase json_text other (arrival_hash a) (arrival_conditions a))
                 (register (arriving a)) t in
    (sent ++ responses (trace R), world R).
Proof. unfold serve. rewrite foldl_app. cbn. now destruct (foldl _ _ arrivals). Qed.

(** X15: however many requests are handled one after another, and however
    each of them goes, the table ends with exactly one more row for every
    201 that was sent, the rows it started with are still its first rows,
    and a table that could be reached stays one that can be. *)
Theorem serve_rows_match_201 json_text other (arrivals : list Arrival) tbl :
  let '(sent, after) := serve json_text other arrivals tbl in
  length after = (length tbl + length (created sent))%nat
  ∧ tbl `prefix_of` after
  ∧ (reachable json_text tbl -> reachable json_text after).
Proof.
  induction arrivals as [|a arrivals IH] using rev_ind.
  - cbn. split; [lia|]. split; [reflexivity|auto].
  - rewrite serve_snoc.
    destruct (serve json_text other arrivals tbl) as [sent t].
    destruct IH as (Hlen & Hpre & Hreach).
    pose proof (run_supabase_cases json_text other (arrival_hash a)
                  (arrival_conditions a) (arriving a) t) as Hcases.
    pose proof (register_reachable json_text other (arrival_hash a)
                  (arrival_conditions a) (arriving a) t) as Hstep.
    cbv zeta in Hcases. cbv beta iota zeta.
    destruct Hcases as [(Hw & Hnone)|(new & payload & Hw & Hsent)].
    + rewrite Hw in Hstep |- *. unfold created in *.
      rewrite filter_app, Hnone, app_nil_r. auto.
    + rewrite Hw in Hstep |- *. rewrite Hsent. unfold created in *.
      rewrite filter_app, filter_cons, decide_True, filter_nil by reflexivity.
      rewrite !length_app. cbn [length].
      split; [lia|]. split; [|auto].
      etrans; [exact Hpre|]. now apply prefix_app_r.
Qed.

(** ** Registering again, later *)

Lemma serve_prefix json_text other (arrivals : list Arrival) tbl :
  tbl `prefix_of` snd (serve json_text other arrivals tbl).
Proof.
  induction arrivals as [|a arrivals IH] using rev_ind; [reflexivity|].
  rewrite serve_snoc. destruct (serve json_text other arrivals tbl) as [sent t].
  cbv beta iota zeta. cbn [snd] in *.
  etrans; [exact IH|].
  pose proof (run_supabase_cases json_text other (arrival_hash a)
                (arrival_conditions a) (arriving a) t) as Hcases.
  cbv zeta in Hcases. destruct Hcases as [(-> & _)|(new & payload & -> & _)].
  - reflexivity.
  - now apply prefix_app_r.
Qed.

(** X5: once a request has been answered 201, its username and its email
    are taken for good.  After any further requests, handled in any order
    and with any outcome, a request with the same [username] or the same
    [email] is never answered 201 and never changes the table, whatever its
    other fields, its hash and the id the database generates; when its hash
    resolves, the answer is 400. *)
Theorem register_again_refused json_text other hash c (req : Request) tbl h payload :
  hash (prop (body req) "password") 10 = Resolved h ->
  responses (trace (run (supabase json_text other hash c) (register req) tbl))
  = [(201, payload)] ->
  ∀ (arrivals : list Arrival) hash' c' (req' : Request),
    prop (body req') "username" = prop (body req) "username"
    ∨ prop (body req') "email" = prop (body req) "email" ->
    let after := world (run (supabase json_text other hash c) (register req) tbl) in
    let later := snd (serve json_text other arrivals after) in
    let R' := run (supabase json_text other hash' c') (register req') later in
    world R' = later
    ∧ created (responses (trace R')) = []
    ∧ ∀ h', hash' (prop (body req') "password") 10 = Resolved h' ->
            ∃ m, responses (trace R') = [(400, JObj [("error", JStr m)])].
Proof.
  intros Hh H201 arrivals hash' c' req' Hsame.
  destruct (run_supabase_accepted json_text other hash c req tbl h payload Hh H201)
    as (u & e & Hu & He & _ & _ & Hafter & _).
  cbv zeta in Hafter. cbv zeta.
  destruct (serve_prefix json_text other arrivals
              (world (run (supabase json_text other hash c) (register req) tbl)))
    as [more Hlater].
  set (later := snd (serve json_text other arrivals _)) in *.
  assert (Htaken :
    (∃ u', sql_text json_text (prop (body req') "username") = Some u'
           ∧ u' ∈ Users.usernames later)
    ∨ (∃ e', sql_text json_text (prop (body req') "email") = Some e'
             ∧ e' ∈ Users.emails later)).
  { rewrite Hlater, Hafter. unfold Users.usernames, Users.emails.
    rewrite !fmap_app. cbn.
    destruct Hsame as [-> | ->]; [left; exists u|right; exists e];
      (split; [assumption|]); apply elem_of_app; left; apply elem_of_app; right;
      apply list_elem_of_singleton; reflexivity. }
  destruct (hash' (prop (body req') "password") 10) as [h'|err] eqn:Hh'.
  - destruct (run_supabase_taken json_text other hash' c' req' later h' Hh' Htaken)
      as (Hw & m & Hm).
    split; [exact Hw|]. split; [now rewrite Hm|]. intros ? _. eauto.
  - rewrite (run_supabase_rejected json_text other hash' c' req' later err Hh').
    cbn. split; [reflexivity|]. split; [reflexivity|]. intros ? [=].
Qed.

Lemma register_again_refused_witness :
  let after := world (run (sample_env sample_conditions) (register alice) []) in
  let later := snd (serve no_json_text no_other_table [carol_arrives] after) in
  let R' := run (sample_env third_conditions) (register alice_other_email) later in
  world R' = later
  ∧ created (responses (trace R')) = []
  ∧ ∀ h', bcryptjs_hash sample_digest (prop (body alice_other_email) "password") 10
          = Resolved h' ->
          ∃ m, responses (trace R') = [(400, JObj [("error", JStr m)])].
Proof.
  apply (register_again_refused no_json_text no_other_table (bcryptjs_hash sample_digest)
           sample_conditions alice [] (sample_digest "s3cret" 10)
           (JArr [row_json alice_row]) eq_refl eq_refl
           [carol_arrives] (bcryptjs_hash sample_digest) third_conditions
           alice_other_email).
  left. reflexivity.
Defined.

(** The later table of the witness holds alice and carol, and the refusal of
    the third request is for the username. *)
Example alice_taken_after_carol :
  let after := world (run (sample_env sample_conditions) (register alice) []) in
  let later := snd (serve no_json_text no_other_table [carol_arrives] after) in
  Users.usernames later = ["alice"; "carol"]
  ∧ responses (trace (run (sample_env third_conditions) (register alice_other_email) later))
    = [(400, JObj [("error", JStr (message (violation_error (Unique "users_username_key"))))])].
Proof. vm_compute. auto. Qed.

(** ** The password and the store *)

(** X16: the raw password reaches the store through [bcrypt.hash] only.
    The password column of the one row a request submits is the string the
    hash call returned, and two requests with the same [username] and
    [email] whose passwords hash to the same value submit the same insert,
    get the same response and leave the same table. *)
Theorem register_password_only_hashed json_text other hash c (req req' : Request) tbl h :
  hash (prop (body req) "password") 10 = Resolved h ->
  hash (prop (body req') "password") 10 = Resolved h ->
  prop (body req') "username" = prop (body req) "username" ->
  prop (body req') "email" = prop (body req) "email" ->
  let R := run (supabase json_text other hash c) (register req) tbl in
  let R' := run (supabase json_text other hash c) (register req') tbl in
  inserts (trace R)
  = [("users", [ {| Insert.username := prop (body req) "username";
                    Insert.email := prop (body req) "email";
                    Insert.password := JStr h |} ])]
  ∧ inserts (trace R') = inserts (trace R)
  ∧ responses (trace R') = responses (trace R)
  ∧ world R' = world R.
Proof.
  intros Hh Hh' Hu He R R'. subst R R'.
  rewrite (run_supabase json_text other hash c req tbl h Hh),
    (run_supabase json_text other hash c req' tbl h Hh').
  cbn [trace world].
  assert (Hrow : new_user req' h = new_user req h)
    by (unfold new_user; now rewrite Hu, He).
  rewrite Hrow.
  destruct (error (fst (insert_users json_text c [new_user req h] tbl)));
    cbn; auto.
Qed.

Lemma register_password_only_hashed_witness :
  let R := run (sample_env sample_conditions) (register alice) [] in
  let R' := run (sample_env sample_conditions) (register alice_other_password) [] in
  inserts (trace R)
  = [("users", [ {| Insert.username := JStr "alice";
                    Insert.email := JStr "alice@example.com";
                    Insert.password := JStr (sample_digest "s3cret" 10) |} ])]
  ∧ inserts (trace R') = inserts (trace R)
  ∧ responses (trace R') = responses (trace R)
  ∧ world R' = world R.
Proof.
  apply (register_password_only_hashed no_json_text no_other_table
           (bcryptjs_hash sample_digest) sample_conditions alice alice_other_password []
           (sample_digest "s3cret" 10)); reflexivity.
Defined.
